(** * Static word vectors from a contextual model: span search and aggregation

    A shallow embedding of the procedural core of the notebook
    [vsm_04_contextualreps.ipynb]:

    - [find_sublist_indices] (cell "def find_sublist_indices"), written once
      over the operations Python applies to its two arguments ([len],
      slicing, [==] and the truth test of [if]), and instantiated both at
      Python lists of integers and at one-dimensional torch tensors of token
      ids, the two kinds of argument the notebook passes;
    - the aggregation cell that computes [sailing_rep], and the cell that
      builds [corpus_reps] before it;
    - the four pooling functions of [vsm.py], which the notebook only calls,
      and the function that the notebook says [vsm.mean_pooling] is.

    Python integers are unbounded, so indices are [nat] and the one signed
    subtraction of the source is carried out in [Z]. Raising an exception is
    modelled by the [Raise] constructor of [result]. *)

From Stdlib Require Import ZArith QArith Qcanon Sorted Lia.
From stdpp Require Import base tactics list numbers.

Local Open Scope nat_scope.

(** ** Python control flow: exceptions and [for] loops *)

Module Py.

(** The exceptions that the modelled code and the library calls it makes can
      raise. *)
Inductive exn : Type :=
  | RuntimeError_bool_ambiguous  (* bool() of a tensor whose number of elements is not 1 *)
  | RuntimeError_size_mismatch   (* elementwise operation on tensors that do not broadcast *)
  | RuntimeError_cat_empty       (* torch.cat of an empty list of tensors *)
  | InvalidInput.                (* pooling of zero vectors *)

Inductive result (A : Type) : Type :=
  | Return (a : A)
  | Raise (e : exn).
Global Arguments Return {A} a.
Global Arguments Raise {A} e.

Definition bind {A B : Type} (m : result A) (k : A -> result B) : result B :=
    match m with
    | Return a => k a
    | Raise e => Raise e
    end.

(** [for x in xs: st = body x st], stopping at the first exception. *)
Fixpoint for_loop {X St : Type} (body : X -> St -> result St)
      (xs : list X) (st : St) : result St :=
    match xs with
    | [] => Return st
    | x :: xs' => bind (body x st) (for_loop body xs')
    end.

(** [range(0, stop)] for a signed [stop]: empty when [stop <= 0]. *)
Definition range0 (stop : Z) : list nat := seq 0 (Z.to_nat stop).

Definition returns {A : Type} (m : result A) : Prop := exists a, m = Return a.

End Py.
Import Py.

Notation "'let!' x ':=' m 'in' k" := (Py.bind m (fun x => k))
  (at level 10, x name, m at level 100, k at level 200).

(** ** The sequence operations [find_sublist_indices] relies on *)

(** [find_sublist_indices] is duck-typed: it needs [len(s)], [s[a:b]] and
    the truth value of [s1 == s2] as tested by [if]. *)
Class PySeq (S : Type) : Type := {
  py_len : S -> nat;
  py_slice : S -> nat -> nat -> S;
  py_eq_truth : S -> S -> result bool
}.

(** [l[a:b]] on a sequence held as a list, for non-negative bounds: bounds
    past the end are clamped, and [b <= a] gives the empty sequence. *)
Definition slice {A : Type} (l : list A) (a b : nat) : list A :=
  take (b - a) (drop a l).

(** Python lists of integers: [==] compares lengths and elements and yields
    a [bool]. *)
#[export] Instance pylist_seq : PySeq (list Z) := {|
  py_len := length;
  py_slice := slice;
  py_eq_truth := fun l1 l2 => Return (bool_decide (l1 = l2))
|}.

(** One-dimensional torch tensors of token ids (what [vsm.hf_encode(w, tok)[0]]
    and [ids.squeeze(0)] are in the notebook). *)
Record tensor1 : Type := Tensor1 { tdata : list Z }.

(** [a == b] on tensors is elementwise, with broadcasting of a one-element
    operand, and gives a tensor of booleans. *)
Definition tensor_eq (a b : tensor1) : result (list bool) :=
  let x := tdata a in
  let y := tdata b in
  if decide (length x = length y) then
    Return (zip_with Z.eqb x y)
  else
    match x, y with
    | [x0], _ => Return (map (Z.eqb x0) y)
    | _, [y0] => Return (map (fun v => Z.eqb v y0) x)
    | _, _ => Raise RuntimeError_size_mismatch
    end.

(** [bool(t)], which [if t:] calls: defined for exactly one element. *)
Definition tensor_bool (t : list bool) : result bool :=
  match t with
  | [b] => Return b
  | _ => Raise RuntimeError_bool_ambiguous
  end.

#[export] Instance tensor1_seq : PySeq tensor1 := {|
  py_len := fun t => length (tdata t);
  py_slice := fun t a b => Tensor1 (slice (tdata t) a b);
  py_eq_truth := fun a b => let! c := tensor_eq a b in tensor_bool c
|}.

(** ** [find_sublist_indices] *)

Section FindSublist.
Context {S : Type} `{PySeq S}.

(** The body of the [for] loop: the state is the list [indices]. *)
Definition find_body (sublist mainlist : S) (length : nat)
    (i : nat) (indices : list (nat * nat)) : result (list (nat * nat)) :=
  let! b := py_eq_truth (py_slice mainlist i (i + length)) sublist in
  if (b : bool) then Return (indices ++ [(i, i + length)])
  else Return indices.

Definition find_sublist_indices (sublist mainlist : S)
    : result (list (nat * nat)) :=
  let indices := [] in
  let length := py_len sublist in
  for_loop (find_body sublist mainlist length)
    (range0 (Z.of_nat (py_len mainlist) - Z.of_nat length + 1))
    indices.

End FindSublist.

(** ** Vectors of scalars

    Hidden representations are vectors of floating-point numbers. They are
    modelled over the rationals [Qc], whose equality is Leibniz equality:
    rounding is outside the model. A tensor of shape [[1, n, D]] (one text,
    [n] tokens) is the list of its [n] rows, a tensor of shape [[1, D]] is
    its single row. *)

Definition vec : Type := list Qc.

Definition Qc_of_nat (n : nat) : Qc := Qc_of_Z (Z.of_nat n).

Definition vadd (u v : vec) : vec := zip_with Qcplus u v.

Definition Qc_max (x y : Qc) : Qc := if decide (x <= y)%Qc then y else x.
Definition Qc_min (x y : Qc) : Qc := if decide (x <= y)%Qc then x else y.

(** Elementwise sum of a first row and the rows after it, divided by [n]. *)
Definition vmean (n : nat) (x : vec) (rest : list vec) : vec :=
  map (fun s => (s / Qc_of_nat n)%Qc) (foldl vadd x rest).

(** ** Pooling functions *)

Module Pooling.

(** Modelled from the spec: [vsm.mean_pooling] of [vsm.py], which the
    notebook imports and which is absent from the sources: the elementwise
    average across the [N] vectors of a sequence representation; [N = 0] is
    invalid input and fails with [InvalidInput]. For [N >= 1] this is the
    [torch.mean] with [axis=1] that the notebook names
    ([Described.mean_pooling] below); for [N = 0] the two differ, and what
    the pooling of zero vectors does is settled on [Described.mean_pooling],
    never on this branch. *)
Definition mean_pooling (hidden_states : list vec) : result vec :=
  match hidden_states with
  | [] => Raise InvalidInput
  | x :: rest => Return (vmean (length hidden_states) x rest)
  end.

(** Modelled from the spec: [vsm.max_pooling] of [vsm.py], absent from the
    sources: elementwise maximum across the [N] vectors; [N = 0] is invalid
    input. *)
Definition max_pooling (hidden_states : list vec) : result vec :=
  match hidden_states with
  | [] => Raise InvalidInput
  | x :: rest => Return (foldl (zip_with Qc_max) x rest)
  end.

(** Modelled from the spec: [vsm.min_pooling] of [vsm.py], absent from the
    sources: elementwise minimum across the [N] vectors; [N = 0] is invalid
    input. *)
Definition min_pooling (hidden_states : list vec) : result vec :=
  match hidden_states with
  | [] => Raise InvalidInput
  | x :: rest => Return (foldl (zip_with Qc_min) x rest)
  end.

(** Modelled from the spec: [vsm.last_pooling] of [vsm.py], absent from the
    sources: the final ([N]th) vector, unchanged; [N = 0] is invalid
    input. *)
Definition last_pooling (hidden_states : list vec) : result vec :=
  match list.last hidden_states with
  | None => Raise InvalidInput
  | Some x => Return x
  end.

End Pooling.

(** ** [vsm.mean_pooling] as the notebook describes it *)

Module Described.

(** An entry of a tensor of floats: a number, or NaN. *)
Inductive entry : Type :=
| Finite (q : Qc)
| NaN.

(** A tensor of shape [[1, N, D]] with its [N] rows of [D] entries. The
    size [D] is part of the shape also when there is no row, so it is kept
    beside the rows. *)
Record hidden : Type := Hidden { width : nat; rows : list vec }.

(** The entries at position [d] of the rows, that is, along axis 1. *)
Definition column (d : nat) (x : hidden) : list Qc :=
  map (fun r : vec => nth d r 0%Qc) (rows x).

(** The mean of some entries: their sum divided by their number. Of no
    entries this is 0/0, which in floating point is NaN and no error. *)
Definition mean_entries (c : list Qc) : entry :=
  match c with
  | [] => NaN
  | _ :: _ => Finite (foldl Qcplus 0%Qc c / Qc_of_nat (length c))%Qc
  end.

(** [torch.mean(x, axis=1)] for [x] of shape [[1, N, D]]: the row of the
    [D] means along axis 1, of shape [[1, D]]. *)
Definition torch_mean_axis1 (x : hidden) : list entry :=
  map (fun d => mean_entries (column d x)) (seq 0 (width x)).

(** In the notebook's words (line 630 of the file): "The function
    [vsm.mean_pooling] is simple [torch.mean] with [axis=1]". The function
    itself is in [vsm.py]; this is the function that sentence describes,
    without any check of its input. *)
Definition mean_pooling (hidden_states : hidden) : result (list entry) :=
  Return (torch_mean_axis1 hidden_states).

End Described.

(** ** The torch calls of the aggregation cell *)

Module Torch.

(** [torch.cat(ts)] along dimension 0, for [ts] a Python list of tensors of
    shape [[1, D]]: the result has one row per tensor. An empty list is
    an error, and so are rows of different sizes. *)
Definition cat (ts : list vec) : result (list vec) :=
  match ts with
  | [] => Raise RuntimeError_cat_empty
  | t :: ts' =>
      if forallb (fun u => Nat.eqb (length u) (length t)) ts'
      then Return ts
      else Raise RuntimeError_size_mismatch
  end.

(** [torch.mean(x, axis=0)] of a tensor of shape [[K, D]]. With [K = 0]
    torch fills the result with NaN, which [Qc] cannot express; [cat] never
    returns such a tensor. *)
Definition mean_axis0 (x : list vec) : vec :=
  match x with
  | [] => []
  | r :: rs => vmean (length x) r rs
  end.

(** The result of [.squeeze(0)] on a tensor of shape [[D]]: dimension 0 is
    removed when its size is 1, leaving a tensor without dimensions. *)
Inductive squeezed : Type :=
| Scalar (x : Qc)
| Vector (v : vec).

Definition squeeze_0 (v : vec) : squeezed :=
  match v with
  | [x] => Scalar x
  | _ => Vector v
  end.

(** [ids.squeeze(0)] on the [[1, m]] tensor that [vsm.hf_encode] returns,
    held by its single row: the row itself, of shape [[m]]. *)
Definition squeeze_ids (ids : tensor1) : tensor1 := ids.

(** [reps[:, start: end]] on a tensor of shape [[1, n, D]]. *)
Definition slice_tokens (reps : list vec) (start stop : nat) : list vec :=
  slice reps start stop.

End Torch.

(** ** The aggregation cell *)

Section Aggregated.

(** [vsm.mean_pooling], called by the cell and defined outside it. *)
Variable vsm_mean_pooling : list vec -> result vec.

(** Body of [for (start, end) in offsets]; the state is [sailing_reps]. *)
Definition offsets_body (reps : list vec) (span : nat * nat)
    (sailing_reps : list vec) : result (list vec) :=
  let '(start, stop) := span in
  let! pooled := vsm_mean_pooling (Torch.slice_tokens reps start stop) in
  Return (sailing_reps ++ [pooled]).

(** Body of [for ids, reps in zip(corpus_ids, corpus_reps)]. *)
Definition corpus_body (sailing : tensor1) (text : tensor1 * list vec)
    (sailing_reps : list vec) : result (list vec) :=
  let '(ids, reps) := text in
  let! offsets := find_sublist_indices sailing (Torch.squeeze_ids ids) in
  for_loop (offsets_body reps) offsets sailing_reps.

Definition sailing_reps_of (sailing : tensor1) (corpus_ids : list tensor1)
    (corpus_reps : list (list vec)) : result (list vec) :=
  for_loop (corpus_body sailing) (zip corpus_ids corpus_reps) [].

Definition sailing_rep (sailing : tensor1) (corpus_ids : list tensor1)
    (corpus_reps : list (list vec)) : result Torch.squeezed :=
  let! sailing_reps := sailing_reps_of sailing corpus_ids corpus_reps in
  let! stacked := Torch.cat sailing_reps in
  Return (Torch.squeeze_0 (Torch.mean_axis0 stacked)).

End Aggregated.

(** ** What the specification calls an occurrence *)

(** The target [t] occurs in [h] at start position [i]: the slice of [h] of
    the target's length at [i] lies within [h] and equals [t] elementwise. *)
Definition occurs_at (t h : list Z) (i : nat) : Prop :=
  i + length t <= length h /\
  forall k, k < length t -> h !! (i + k) = t !! k.

(** ** The scan of [find_sublist_indices], position by position *)

(** The span reported for a match of a target of [n] elements at [i]. *)
Definition span_of (n i : nat) : nat * nat := (i, i + n).

(** Start positions of [js] at which the slice comparison succeeds. *)
Definition matching (t h : list Z) (js : list nat) : list nat :=
  filter (fun i => slice h i (i + length t) = t) js.

(** The start positions that the scan visits. *)
Definition scanned (t h : list Z) : list nat :=
  range0 (Z.of_nat (length h) - Z.of_nat (length t) + 1).

(** ** The aggregation as the specification words it *)

(** Whether the target occurs at a position can be computed. *)
#[local] Instance occurs_at_dec (t h : list Z) (i : nat) :
  Decision (occurs_at t h i).
Proof.
  assert (i + length t <= length h /\
          Forall (fun k => h !! (i + k) = t !! k) (seq 0 (length t)) <->
          occurs_at t h i) as Hiff.
  { unfold occurs_at. rewrite list.Forall_forall.
    split; intros [Hlen Hel]; (split; [exact Hlen|]); intros k Hk; apply Hel.
    - apply elem_of_seq. lia.
    - apply elem_of_seq in Hk. lia. }
  refine (cast_if (decide (i + length t <= length h /\
                           Forall (fun k => h !! (i + k) = t !! k)
                                  (seq 0 (length t)))));
    tauto.
Defined.

(** The start positions of the target [t] in a text, in increasing order. *)
Definition occurrence_starts (t ids : list Z) : list nat :=
  filter (occurs_at t ids) (seq 0 (length ids + 1)).

(** The slices of the texts' representations over the occurrence spans, in
    corpus order and, within a text, in span-start order. *)
Definition occurrence_slices (t : list Z)
    (texts : list (tensor1 * list vec)) : list (list vec) :=
  flat_map (fun text : tensor1 * list vec =>
              map (fun i => slice text.2 i (i + length t))
                  (occurrence_starts t (tdata text.1)))
           texts.

(** The pooling of each slice in turn, stopping at the first failure. *)
Fixpoint map_result {A B : Type} (f : A -> result B) (l : list A)
    : result (list B) :=
  match l with
  | [] => Return []
  | x :: l' =>
      let! y := f x in
      let! ys := map_result f l' in
      Return (y :: ys)
  end.

(** ** The corpus cells

    The cells that build [corpus_reps] and then run the aggregation. The
    representer [vsm.hf_represent(ids, bert_model, layer=1)] belongs to
    [vsm.py] and the model behind it; it is taken as a function from the
    ids of one text to the rows of its representation. *)

Section Pipeline.

Variable hf_represent : tensor1 -> list vec.
Variable vsm_mean_pooling : list vec -> result vec.

(** [corpus_reps = [vsm.hf_represent(ids, bert_model, layer=1)
                    for ids in corpus_ids]] *)
Definition corpus_reps_of (corpus_ids : list tensor1) : list (list vec) :=
  map hf_represent corpus_ids.

(** The cell of [corpus_reps] followed by the cell of [sailing_rep]. *)
Definition aggregated (sailing : tensor1) (corpus_ids : list tensor1)
    : result Torch.squeezed :=
  let corpus_reps := corpus_reps_of corpus_ids in
  sailing_rep vsm_mean_pooling sailing corpus_ids corpus_reps.

End Pipeline.

(** The one-row slices of the texts' own representations at the positions
    of the token [x], text by text in corpus order and, within a text, in
    increasing position. *)
Definition token_rows (hf_represent : tensor1 -> list vec) (x : list Z)
    (corpus_ids : list tensor1) : list (list vec) :=
  flat_map (fun ids : tensor1 =>
              map (fun i => slice (hf_represent ids) i (i + length x))
                  (occurrence_starts x (tdata ids)))
           corpus_ids.

(** A representer to run the cells on: the token with id [z] gets the row
    [(z, z + 1)], whatever its context. *)
Definition two_dim_represent (ids : tensor1) : list vec :=
  map (fun z => [Qc_of_Z z; Qc_of_Z (z + 1)]) (tdata ids).

(** * Properties *)

(** ** Slices and occurrences *)

Lemma slice_at {A : Type} (h : list A) (i n : nat) :
  slice h i (i + n) = take n (drop i h).
Proof. unfold slice. by replace (i + n - i) with n by lia. Qed.

Lemma occurs_at_slice (t h : list Z) (i : nat) :
  occurs_at t h i <->
  i + length t <= length h /\ slice h i (i + length t) = t.
Proof.
  rewrite slice_at. unfold occurs_at. split.
  - intros [Hlen Hel]. split; [done|]. apply list_eq. intros k.
    destruct (decide (k < length t)) as [Hk|Hk].
    + by rewrite lookup_take_lt, lookup_drop, Hel.
    + rewrite lookup_take_ge by lia.
      symmetry. apply lookup_ge_None. lia.
  - intros [Hlen E]. split; [done|].
    intros k Hk. rewrite <- E at 1.
    by rewrite lookup_take_lt, lookup_drop.
Qed.

(** A slice equal to a non-empty target lies within the haystack. *)
Lemma slice_eq_in_range (t h : list Z) (i : nat) :
  t <> [] -> slice h i (i + length t) = t -> i + length t <= length h.
Proof.
  intros Ht E. rewrite slice_at in E.
  pose proof (f_equal length E) as EL.
  rewrite length_take, length_drop in EL.
  assert (0 < length t) by (destruct t; [done|simpl; lia]). lia.
Qed.

(** ** The loop of [find_sublist_indices] on Python lists *)

Lemma find_loop_list (t h : list Z) (js : list nat) (acc : list (nat * nat)) :
  for_loop (find_body t h (length t)) js acc =
  Return (acc ++ map (span_of (length t)) (matching t h js)).
Proof.
  revert acc. induction js as [|i js IH]; intros acc; simpl.
  - by rewrite app_nil_r.
  - unfold find_body at 1, matching. simpl.
    rewrite filter_cons. case_bool_decide as E.
    + rewrite decide_True by done.
      fold (matching t h js). cbn [Py.bind]. rewrite IH.
      simpl. by rewrite <- app_assoc.
    + rewrite decide_False by done. cbn [Py.bind]. apply IH.
Qed.

Lemma find_list_eq (t h : list Z) :
  find_sublist_indices t h =
  Return (map (span_of (length t)) (matching t h (scanned t h))).
Proof. unfold find_sublist_indices. simpl. by rewrite find_loop_list. Qed.

Lemma elem_of_scanned (t h : list Z) (i : nat) :
  i ∈ scanned t h <-> i + length t <= length h.
Proof. unfold scanned, range0. rewrite elem_of_seq. lia. Qed.

Lemma elem_of_matching (t h : list Z) (i : nat) :
  i ∈ matching t h (scanned t h) <-> occurs_at t h i.
Proof.
  unfold matching.
  rewrite list_elem_of_filter, elem_of_scanned, occurs_at_slice. tauto.
Qed.

Lemma StronglySorted_seq (a n : nat) : StronglySorted lt (seq a n).
Proof.
  revert a. induction n as [|n IH]; intros a; simpl; constructor.
  - apply IH.
  - apply List.Forall_forall. intros x Hx. apply in_seq in Hx. lia.
Qed.

Lemma StronglySorted_filter {A : Type} (R : A -> A -> Prop) (P : A -> Prop)
    `{forall x, Decision (P x)} (l : list A) :
  StronglySorted R l -> StronglySorted R (filter P l).
Proof.
  induction 1 as [|x l Hl IH Hx]; [constructor|].
  rewrite filter_cons. destruct (decide (P x)); [|done].
  constructor; [done|].
  apply List.Forall_forall. intros y Hy.
  apply list_elem_of_In, list_elem_of_filter in Hy as [_ Hy].
  rewrite List.Forall_forall in Hx. by apply Hx, list_elem_of_In.
Qed.

(** C1: on Python lists, for a non-empty target [t] and any haystack [h],
    [find_sublist_indices] returns exactly the pairs [(i, i + len t)] for
    the start positions [i] with [i + len t <= len h] at which the slice of
    [h] equals [t] elementwise, in strictly increasing order of [i]: every
    such position appears, once, and nothing else does. *)
Theorem find_sublist_indices_exact (t h : list Z) :
  t <> [] ->
  exists starts : list nat,
    find_sublist_indices t h = Return (map (fun i => (i, i + length t)) starts) /\
    StronglySorted lt starts /\
    (forall i, In i starts <->
       (i + length t <= length h /\
        forall k, k < length t -> h !! (i + k) = t !! k)).
Proof.
  intros _. exists (matching t h (scanned t h)). split; [|split].
  - apply find_list_eq.
  - apply StronglySorted_filter, StronglySorted_seq.
  - intros i. rewrite <- list_elem_of_In. apply elem_of_matching.
Qed.

Lemma find_sublist_indices_exact_witness :
  [1; 2]%Z <> [] /\
  exists starts : list nat,
    find_sublist_indices [1; 2]%Z [1; 2; 1; 2]%Z =
      Return (map (fun i => (i, i + 2)) starts) /\
    StronglySorted lt starts /\
    (forall i, In i starts <->
       (i + 2 <= 4 /\
        forall k, k < 2 -> [1; 2; 1; 2]%Z !! (i + k) = [1; 2]%Z !! k)).
Proof.
  split; [discriminate|].
  apply (find_sublist_indices_exact [1; 2]%Z [1; 2; 1; 2]%Z). discriminate.
Defined.

(** C6: on Python lists, the scan advances one position at a time and does
    not skip past a match: when a non-empty target [t] matches the haystack
    [h] at two overlapping positions [i < j < i + len t], both spans are in
    the returned sequence. *)
Theorem find_sublist_indices_overlapping (t h : list Z) (i j : nat) :
  t <> [] ->
  i < j < i + length t ->
  slice h i (i + length t) = t ->
  slice h j (j + length t) = t ->
  exists l,
    find_sublist_indices t h = Return l /\
    In (i, i + length t) l /\ In (j, j + length t) l.
Proof.
  intros Ht _ Ei Ej. eexists. split; [apply find_list_eq|].
  assert (forall p, slice h p (p + length t) = t ->
            In (p, p + length t)
               (map (span_of (length t)) (matching t h (scanned t h)))) as Hin.
  { intros p Ep. apply (in_map (span_of (length t))), list_elem_of_In.
    apply elem_of_matching, occurs_at_slice.
    split; [by apply slice_eq_in_range|done]. }
  split; by apply Hin.
Qed.

Lemma find_sublist_indices_overlapping_witness :
  [1; 1]%Z <> [] /\
  0 < 1 < 0 + length [1; 1]%Z /\
  slice [1; 1; 1]%Z 0 (0 + length [1; 1]%Z) = [1; 1]%Z /\
  slice [1; 1; 1]%Z 1 (1 + length [1; 1]%Z) = [1; 1]%Z /\
  exists l,
    find_sublist_indices [1; 1]%Z [1; 1; 1]%Z = Return l /\
    In (0, 0 + length [1; 1]%Z) l /\ In (1, 1 + length [1; 1]%Z) l.
Proof.
  assert ([1; 1]%Z <> []) as Ht by discriminate.
  assert (0 < 1 < 0 + length [1; 1]%Z) as Hij by (simpl; lia).
  assert (slice [1; 1; 1]%Z 0 (0 + length [1; 1]%Z) = [1; 1]%Z) as E0
    by reflexivity.
  assert (slice [1; 1; 1]%Z 1 (1 + length [1; 1]%Z) = [1; 1]%Z) as E1
    by reflexivity.
  repeat split; try assumption; try (simpl; lia).
  exact (find_sublist_indices_overlapping [1; 1]%Z [1; 1; 1]%Z 0 1
           Ht Hij E0 E1).
Defined.

(** C7: [find_sublist_indices([1,2], [1,2,1,2])] is [[(0,2), (2,4)]]. *)
Theorem find_sublist_indices_repeat :
  find_sublist_indices [1; 2]%Z [1; 2; 1; 2]%Z = Return [(0, 2); (2, 4)].
Proof. vm_compute. reflexivity. Qed.

(** C8: [find_sublist_indices([1,2], [1,2,3,0,1,2,3])] is
    [[(0,2), (4,6)]], the output recorded in the notebook. *)
Theorem find_sublist_indices_notebook_example :
  find_sublist_indices [1; 2]%Z [1; 2; 3; 0; 1; 2; 3]%Z =
  Return [(0, 2); (4, 6)].
Proof. vm_compute. reflexivity. Qed.

(** C9: on Python lists, a target longer than the haystack gives the empty
    sequence: the range of start positions is empty. *)
Theorem find_sublist_indices_target_longer (t h : list Z) :
  length t > length h ->
  find_sublist_indices t h = Return [].
Proof.
  intros Hlen. unfold find_sublist_indices, range0. simpl.
  replace (Z.to_nat (Z.of_nat (length h) - Z.of_nat (length t) + 1)) with 0
    by lia.
  reflexivity.
Qed.

Lemma find_sublist_indices_target_longer_witness :
  length [1; 2; 3]%Z > length [1; 2]%Z /\
  find_sublist_indices [1; 2; 3]%Z [1; 2]%Z = Return [].
Proof.
  split; [simpl; lia|].
  apply (find_sublist_indices_target_longer [1; 2; 3]%Z [1; 2]%Z).
  simpl. lia.
Defined.

Lemma matching_nil (h : list Z) (js : list nat) : matching [] h js = js.
Proof.
  unfold matching. induction js as [|i js IH]; [done|].
  rewrite filter_cons_True; [by rewrite IH|].
  simpl. by rewrite slice_at.
Qed.

(** C10: on Python lists, the empty target is accepted: the call returns
    the zero-width spans [(i, i)] for [i = 0 .. len(mainlist)], in
    increasing order, [len(mainlist) + 1] of them. *)
Theorem find_sublist_indices_empty_target (mainlist : list Z) :
  find_sublist_indices [] mainlist =
    Return (map (fun i => (i, i)) (seq 0 (length mainlist + 1))) /\
  length (map (fun i => (i, i)) (seq 0 (length mainlist + 1))) =
    length mainlist + 1.
Proof.
  split; [|by rewrite length_map, length_seq].
  rewrite find_list_eq, matching_nil. unfold scanned, range0.
  replace (Z.to_nat (Z.of_nat (length mainlist) - Z.of_nat (length (@nil Z)) + 1))
    with (length mainlist + 1) by (simpl; lia).
  f_equal. apply map_ext. intros i. unfold span_of. simpl. f_equal. lia.
Qed.

(** ** Pooling *)

Lemma Qcdiv_1_r (x : Qc) : (x / Qc_of_nat 1)%Qc = x.
Proof.
  unfold Qc_of_nat. change (Z.of_nat 1) with 1%Z.
  rewrite Z2Qc_inj_1. unfold Qcdiv.
  replace (/ 1)%Qc with 1%Qc by (apply Qc_is_canon; reflexivity).
  apply Qcmult_1_r.
Qed.

(** C4: each of the four pooling functions, applied to the one-element
    sequence [[v]], returns [v] unchanged. *)
Theorem pooling_singleton (v : vec) :
  Pooling.mean_pooling [v] = Return v /\
  Pooling.max_pooling [v] = Return v /\
  Pooling.min_pooling [v] = Return v /\
  Pooling.last_pooling [v] = Return v.
Proof.
  repeat split; try reflexivity.
  unfold Pooling.mean_pooling, vmean. simpl. f_equal.
  induction v as [|x v IH]; [done|].
  simpl. by rewrite Qcdiv_1_r, IH.
Qed.




(** ** [find_sublist_indices] on tensors *)

(** The truth test of [a == b] succeeds with [True] only when both tensors
    hold the same single element. *)
Lemma tensor_truth_true (a b : tensor1) :
  py_eq_truth a b = Return true ->
  tdata a = tdata b /\ length (tdata b) = 1.
Proof.
  destruct a as [x], b as [y]. simpl. unfold tensor_eq. simpl.
  destruct (decide (length x = length y)) as [E|E].
  - destruct x as [|x0 [|x1 x]], y as [|y0 [|y1 y]]; simpl; try done.
    intros [= Hb]. apply Z.eqb_eq in Hb. by subst.
  - destruct x as [|x0 [|x1 x]], y as [|y0 [|y1 y]]; simpl in *; done.
Qed.

(** On one-element tensors the truth test is the comparison of lists. *)
Lemma tensor_truth_single (x y : list Z) :
  length x = 1 -> length y = 1 ->
  py_eq_truth (Tensor1 x) (Tensor1 y) = Return (bool_decide (x = y)).
Proof.
  destruct x as [|x0 [|x1 x]], y as [|y0 [|y1 y]]; try done. intros _ _.
  simpl. unfold tensor_eq. simpl. f_equal.
  destruct (Z.eqb_spec x0 y0) as [->|Hne].
  - by rewrite bool_decide_eq_true_2.
  - rewrite bool_decide_eq_false_2; [done|]. by intros [= ?].
Qed.

(** On tensors whose number of elements is the same and is not 1, the
    truth test raises. *)
Lemma tensor_truth_ambiguous (x y : list Z) :
  length x = length y -> length y <> 1 ->
  py_eq_truth (Tensor1 x) (Tensor1 y) = Raise RuntimeError_bool_ambiguous.
Proof.
  intros E Hy. simpl. unfold tensor_eq. simpl. rewrite decide_True by done.
  destruct x as [|x0 [|x1 x]], y as [|y0 [|y1 y]]; simpl in *; done.
Qed.

Lemma for_loop_ext {X St : Type} (f g : X -> St -> result St) (xs : list X) :
  (forall x, x ∈ xs -> forall st, f x st = g x st) ->
  forall st, for_loop f xs st = for_loop g xs st.
Proof.
  induction xs as [|x xs IH]; intros Hfg st; [done|]. simpl.
  rewrite (Hfg x) by left.
  destruct (g x st); [|done]. simpl. apply IH.
  intros y Hy. apply Hfg. by right.
Qed.

Lemma length_slice_in_range {A : Type} (h : list A) (i n : nat) :
  i + n <= length h -> length (slice h i (i + n)) = n.
Proof. intros. rewrite slice_at, length_take, length_drop. lia. Qed.

(** For a one-token target, the search on tensors is the search on lists. *)
Lemma find_tensor_single (t h : tensor1) :
  length (tdata t) = 1 ->
  find_sublist_indices t h = find_sublist_indices (tdata t) (tdata h).
Proof.
  intros Ht. unfold find_sublist_indices. simpl.
  apply for_loop_ext. intros i Hi st.
  apply elem_of_scanned in Hi.
  unfold find_body.
  change (py_slice h i (i + length (tdata t)))
    with (Tensor1 (slice (tdata h) i (i + length (tdata t)))).
  destruct t as [x]. simpl in *.
  pose proof (tensor_truth_single (slice (tdata h) i (i + length x)) x) as E.
  simpl in E. rewrite E; [done| |done].
  rewrite length_slice_in_range; done.
Qed.

(** Whatever the target, a scan that returns on a haystack without any
    occurrence has added nothing. *)
Lemma find_loop_tensor_no_match (t h : tensor1) (js : list nat)
    (acc l : list (nat * nat)) :
  (forall i, i ∈ js -> slice (tdata h) i (i + length (tdata t)) <> tdata t) ->
  for_loop (find_body t h (length (tdata t))) js acc = Return l ->
  l = acc.
Proof.
  revert acc. induction js as [|i js IH]; intros acc Hno; simpl.
  - by intros [= ->].
  - unfold find_body at 1.
    destruct (py_eq_truth (py_slice h i (i + length (tdata t))) t)
      as [[|]|e] eqn:E; cbn [Py.bind]; [| |done].
    + apply tensor_truth_true in E as [E _]. simpl in E.
      destruct (Hno i); [by left|done].
    + apply IH. intros j Hj. apply Hno. by right.
Qed.

Lemma find_tensor_no_occurrence (t h : tensor1) (l : list (nat * nat)) :
  (forall i, ~ occurs_at (tdata t) (tdata h) i) ->
  find_sublist_indices t h = Return l ->
  l = [].
Proof.
  intros Hno. unfold find_sublist_indices. simpl.
  apply find_loop_tensor_no_match. intros i Hi E.
  apply elem_of_scanned in Hi. apply (Hno i), occurs_at_slice. done.
Qed.

Section AggregatedFacts.
Variable vsm_mean_pooling : list vec -> result vec.

Lemma corpus_loop_no_occurrence (sailing : tensor1)
    (texts : list (tensor1 * list vec)) (l : list vec) :
  (forall text, text ∈ texts ->
     forall i, ~ occurs_at (tdata sailing) (tdata text.1) i) ->
  for_loop (corpus_body vsm_mean_pooling sailing) texts [] = Return l ->
  l = [].
Proof.
  induction texts as [|[ids reps] texts IH]; intros Hno; simpl.
  - by intros [= <-].
  - unfold Torch.squeeze_ids.
    destruct (find_sublist_indices sailing ids) as [offsets|e] eqn:E;
      cbn [Py.bind]; [|done].
    apply find_tensor_no_occurrence in E; [|apply (Hno (ids, reps)); by left].
    subst offsets. simpl. apply IH. intros text Ht. apply Hno. by right.
Qed.

Lemma corpus_loop_single_no_occurrence (sailing : tensor1)
    (texts : list (tensor1 * list vec)) :
  length (tdata sailing) = 1 ->
  (forall text, text ∈ texts ->
     forall i, ~ occurs_at (tdata sailing) (tdata text.1) i) ->
  for_loop (corpus_body vsm_mean_pooling sailing) texts [] = Return [].
Proof.
  intros Hs. induction texts as [|[ids reps] texts IH]; intros Hno; [done|].
  simpl. unfold Torch.squeeze_ids.
  destruct (find_sublist_indices sailing ids) as [offsets|e] eqn:E.
  - apply find_tensor_no_occurrence in E; [|apply (Hno (ids, reps)); by left].
    subst offsets. simpl. apply IH. intros text Ht. apply Hno. by right.
  - by rewrite find_tensor_single, find_list_eq in E.
Qed.

(** C3 (as the code has it): for a word whose target occurs nowhere in the
    corpus, the aggregation cell returns no vector of any kind, zero-filled,
    NaN-filled or other, and no marker either: it stops with an exception.
    For a one-token target such as the notebook's, the exception is the one
    [torch.cat] raises on the empty list of occurrence vectors. *)
Theorem sailing_rep_no_occurrence (sailing : tensor1)
    (corpus_ids : list tensor1) (corpus_reps : list (list vec)) :
  (forall ids, In ids corpus_ids ->
     forall i, ~ occurs_at (tdata sailing) (tdata ids) i) ->
  exists e,
    sailing_rep vsm_mean_pooling sailing corpus_ids corpus_reps = Raise e /\
    (length (tdata sailing) = 1 -> e = RuntimeError_cat_empty).
Proof.
  intros Hno.
  assert (forall text, text ∈ zip corpus_ids corpus_reps ->
            forall i, ~ occurs_at (tdata sailing) (tdata text.1) i) as Hz.
  { intros [ids reps] Ht. apply Hno, list_elem_of_In.
    by apply elem_of_zip_l in Ht. }
  unfold sailing_rep, sailing_reps_of.
  destruct (for_loop (corpus_body vsm_mean_pooling sailing)
              (zip corpus_ids corpus_reps) []) as [l|e] eqn:E; cbn [Py.bind].
  - apply corpus_loop_no_occurrence in E; [|done]. subst l.
    by exists RuntimeError_cat_empty.
  - exists e. split; [done|]. intros Hs.
    rewrite corpus_loop_single_no_occurrence in E; done.
Qed.

End AggregatedFacts.

Lemma sailing_rep_no_occurrence_witness :
  (forall ids, In ids [Tensor1 [1; 2]%Z] ->
     forall i, ~ occurs_at [7]%Z (tdata ids) i) /\
  exists e,
    sailing_rep Pooling.mean_pooling (Tensor1 [7]%Z) [Tensor1 [1; 2]%Z]
      [[[1%Qc]; [2%Qc]]] = Raise e /\
    (length [7]%Z = 1 -> e = RuntimeError_cat_empty).
Proof.
  assert (forall ids, In ids [Tensor1 [1; 2]%Z] ->
            forall i, ~ occurs_at [7]%Z (tdata ids) i) as Hno.
  { intros ids [<-|[]] i [Hlen Hel]. simpl in *.
    specialize (Hel 0). rewrite Nat.add_0_r in Hel.
    destruct i as [|[|i]]; [..|lia]; by specialize (Hel ltac:(lia)). }
  split; [exact Hno|].
  exact (sailing_rep_no_occurrence Pooling.mean_pooling (Tensor1 [7]%Z)
           [Tensor1 [1; 2]%Z] [[[1%Qc]; [2%Qc]]] Hno).
Defined.

(** C3 (as the specification has it) fails: the word [7] occurs nowhere in
    the one-text corpus [[1, 2]], and the cell does not return a row, marked
    or not: it raises. *)
Lemma no_occurrence_cell_raises :
  (forall i, ~ occurs_at [7]%Z [1; 2]%Z i) /\
  sailing_rep Pooling.mean_pooling (Tensor1 [7]%Z) [Tensor1 [1; 2]%Z]
    [[[1%Qc]; [2%Qc]]] = Raise RuntimeError_cat_empty /\
  ~ returns (sailing_rep Pooling.mean_pooling (Tensor1 [7]%Z)
               [Tensor1 [1; 2]%Z] [[[1%Qc]; [2%Qc]]]).
Proof.
  split; [|split].
  - intros i [Hlen Hel]. simpl in *.
    specialize (Hel 0). rewrite Nat.add_0_r in Hel.
    destruct i as [|[|i]]; [..|lia]; by specialize (Hel ltac:(lia)).
  - reflexivity.
  - intros [v Hv]. discriminate Hv.
Qed.

(** ** The aggregation cell on words of one token and of several tokens *)

Lemma map_result_app {A B : Type} (f : A -> result B) (l1 l2 : list A) :
  map_result f (l1 ++ l2) =
  (let! ys1 := map_result f l1 in
   let! ys2 := map_result f l2 in
   Return (ys1 ++ ys2)).
Proof.
  induction l1 as [|x l1 IH]; simpl.
  - by destruct (map_result f l2).
  - destruct (f x); [|done]. simpl. rewrite IH.
    destruct (map_result f l1); [|done]. simpl.
    by destruct (map_result f l2).
Qed.

Lemma filter_ext_elem {A : Type} (P Q : A -> Prop)
    `{!forall x, Decision (P x), !forall x, Decision (Q x)} (l : list A) :
  (forall x, x ∈ l -> P x <-> Q x) -> filter P l = filter Q l.
Proof.
  induction l as [|x l IH]; intros HPQ; [done|].
  rewrite !filter_cons, IH by (intros y Hy; apply HPQ; by right).
  destruct (decide (P x)) as [HP|HP], (decide (Q x)) as [HQ|HQ]; try done.
  - destruct HQ. by apply (HPQ x); [left|].
  - destruct HP. by apply (HPQ x); [left|].
Qed.

Lemma filter_none {A : Type} (P : A -> Prop) `{!forall x, Decision (P x)}
    (l : list A) :
  (forall x, x ∈ l -> ~ P x) -> filter P l = [].
Proof.
  induction l as [|x l IH]; intros HP; [done|].
  rewrite filter_cons, IH by (intros y Hy; apply HP; by right).
  destruct (decide (P x)) as [Hx|Hx]; [|done].
  destruct (HP x); [by left|done].
Qed.

(** The positions the scan visits and accepts are the occurrence starts. *)
Lemma matching_scanned (t ids : list Z) :
  matching t ids (scanned t ids) = occurrence_starts t ids.
Proof.
  unfold occurrence_starts, matching, scanned, range0.
  set (n := Z.to_nat (Z.of_nat (length ids) - Z.of_nat (length t) + 1)).
  replace (length ids + 1) with (n + (length ids + 1 - n)) by lia.
  rewrite seq_app, (list.filter_app (occurs_at t ids)).
  rewrite (filter_none _ (seq (0 + n) _)), app_nil_r.
  - apply filter_ext_elem. intros i Hi.
    apply elem_of_seq in Hi. rewrite occurs_at_slice. split; [|tauto].
    intros E. split; [lia|done].
  - intros i Hi [Hlen _]. apply elem_of_seq in Hi. lia.
Qed.

Section AggregatedRefinement.
Variable vsm_mean_pooling : list vec -> result vec.

(** The inner loop pools the slices over the spans, in order, and appends
    the results. *)
Lemma offsets_loop_map (reps : list vec) (n : nat) (starts : list nat)
    (acc : list vec) :
  for_loop (offsets_body vsm_mean_pooling reps) (map (span_of n) starts) acc =
  (let! pooled := map_result vsm_mean_pooling
                    (map (fun i => slice reps i (i + n)) starts) in
   Return (acc ++ pooled)).
Proof.
  revert acc. induction starts as [|i starts IH]; intros acc; simpl.
  - by rewrite app_nil_r.
  - unfold Torch.slice_tokens.
    destruct (vsm_mean_pooling (slice reps i (i + n))) as [y|e]; [|done].
    cbn [Py.bind]. rewrite IH.
    destruct (map_result vsm_mean_pooling _) as [ys|e]; [|done].
    cbn [Py.bind]. by rewrite <- app_assoc.
Qed.

(** For a one-token target the outer loop collects the pooled occurrence
    slices of all texts, in corpus order. *)
Lemma corpus_loop_single (sailing : tensor1)
    (texts : list (tensor1 * list vec)) (acc : list vec) :
  length (tdata sailing) = 1 ->
  for_loop (corpus_body vsm_mean_pooling sailing) texts acc =
  (let! pooled := map_result vsm_mean_pooling
                    (occurrence_slices (tdata sailing) texts) in
   Return (acc ++ pooled)).
Proof.
  intros Hs. revert acc.
  induction texts as [|[ids reps] texts IH]; intros acc; simpl.
  - by rewrite app_nil_r.
  - unfold Torch.squeeze_ids.
    rewrite find_tensor_single, find_list_eq, matching_scanned by done.
    cbn [Py.bind]. rewrite offsets_loop_map, map_result_app.
    destruct (map_result vsm_mean_pooling (map _ _)) as [ys|e]; [|done].
    cbn [Py.bind]. rewrite IH.
    destruct (map_result vsm_mean_pooling (occurrence_slices _ _))
      as [zs|e]; [|done].
    cbn [Py.bind]. by rewrite <- app_assoc.
Qed.

(** For a word of one token, as [sailing] is in the notebook, the cell
    computes what the specification describes: each occurrence slice is
    pooled, and the pooled vectors of all occurrences, in corpus order and
    span-start order, are averaged elementwise. *)
Lemma sailing_rep_single_token (sailing : tensor1)
    (corpus_ids : list tensor1) (corpus_reps : list (list vec)) :
  length (tdata sailing) = 1 ->
  sailing_rep vsm_mean_pooling sailing corpus_ids corpus_reps =
  (let! occurrence_vectors :=
     map_result vsm_mean_pooling
       (occurrence_slices (tdata sailing) (zip corpus_ids corpus_reps)) in
   let! stacked := Torch.cat occurrence_vectors in
   Return (Torch.squeeze_0 (Torch.mean_axis0 stacked))).
Proof.
  intros Hs. unfold sailing_rep, sailing_reps_of.
  rewrite corpus_loop_single by done.
  by destruct (map_result vsm_mean_pooling _).
Qed.

(** For a target that does not have exactly one token, the first text that
    is at least as long as the target makes the comparison raise. *)
Lemma corpus_loop_multi_token (sailing : tensor1)
    (texts : list (tensor1 * list vec)) (acc : list vec) :
  length (tdata sailing) <> 1 ->
  (exists text, text ∈ texts /\
     length (tdata sailing) <= length (tdata text.1)) ->
  for_loop (corpus_body vsm_mean_pooling sailing) texts acc =
  Raise RuntimeError_bool_ambiguous.
Proof.
  intros Hs. induction texts as [|[ids reps] texts IH]; intros [text [Hin Hlen]].
  - by apply elem_of_nil in Hin.
  - simpl. unfold Torch.squeeze_ids, find_sublist_indices, range0. simpl.
    destruct (decide (length (tdata sailing) <= length (tdata ids))) as [Hle|Hgt].
    + replace (Z.to_nat (Z.of_nat (length (tdata ids)) -
                         Z.of_nat (length (tdata sailing)) + 1))
        with (S (length (tdata ids) - length (tdata sailing))) by lia.
      simpl. unfold find_body at 1.
      change (py_slice ids 0 (0 + length (tdata sailing)))
        with (Tensor1 (slice (tdata ids) 0 (0 + length (tdata sailing)))).
      destruct sailing as [x]. simpl in Hs, Hle |- *.
      pose proof (tensor_truth_ambiguous (slice (tdata ids) 0 (length x)) x)
        as E.
      simpl in E. rewrite E; [done| |done].
      by apply (length_slice_in_range (tdata ids) 0).
    + replace (Z.to_nat (Z.of_nat (length (tdata ids)) -
                         Z.of_nat (length (tdata sailing)) + 1))
        with 0 by lia.
      simpl. apply IH. exists text. split; [|done].
      apply elem_of_cons in Hin as [->|Hin]; [|done]. simpl in Hlen. lia.
Qed.

(** Hence a word of several tokens that occurs in the corpus gets no
    vector. *)
Lemma sailing_rep_multi_token (sailing : tensor1)
    (corpus_ids : list tensor1) (corpus_reps : list (list vec)) :
  length (tdata sailing) <> 1 ->
  (exists text, text ∈ zip corpus_ids corpus_reps /\
     exists i, occurs_at (tdata sailing) (tdata text.1) i) ->
  sailing_rep vsm_mean_pooling sailing corpus_ids corpus_reps =
  Raise RuntimeError_bool_ambiguous.
Proof.
  intros Hs [text [Hin [i [Hlen _]]]]. unfold sailing_rep, sailing_reps_of.
  rewrite corpus_loop_multi_token; [done..|].
  exists text. split; [done|lia].
Qed.

End AggregatedRefinement.

(** The cell on a two-text corpus with three occurrences of a one-token
    word: the three occurrence vectors [(3, 5)], [(5, 7)] and [(7, 9)] are
    averaged. *)
Example sailing_rep_demo :
  sailing_rep Pooling.mean_pooling (Tensor1 [5]%Z)
    [Tensor1 [1; 5]%Z; Tensor1 [5; 2; 5]%Z]
    (map (map (map Qc_of_Z))
       [[[1; 1]; [3; 5]]; [[5; 7]; [0; 0]; [7; 9]]]%Z) =
  Return (Torch.Vector (map Qc_of_Z [5; 7]%Z)).
Proof.
  vm_compute. do 2 f_equal.
  apply (f_equal2 cons); [by apply Qc_is_canon|].
  apply (f_equal2 cons); [by apply Qc_is_canon|done].
Qed.

(** C2 (where the cell departs from it): the word "snuffleupagus" of the
    notebook has the six token ids below. In a corpus whose only text is
    that word, the target occurs at position 0, and yet the cell produces no
    vector: comparing the six-element slice with the six-element target
    gives a tensor of six booleans, whose truth value [if] cannot take. *)
Theorem sailing_rep_multi_token_raises :
  occurs_at [1055; 11231; 18142; 6279; 8490; 2271]%Z
            [1055; 11231; 18142; 6279; 8490; 2271]%Z 0 /\
  forall (vsm_mean_pooling : list vec -> result vec) (reps : list vec),
    sailing_rep vsm_mean_pooling
      (Tensor1 [1055; 11231; 18142; 6279; 8490; 2271]%Z)
      [Tensor1 [1055; 11231; 18142; 6279; 8490; 2271]%Z]
      [reps] = Raise RuntimeError_bool_ambiguous.
Proof.
  split.
  - apply occurs_at_slice. split; [simpl; lia|reflexivity].
  - intros mp reps. reflexivity.
Qed.

(** * Further properties of the search *)

(** ** On Python lists *)

Lemma in_find_list (t h : list Z) (s e : nat) :
  In (s, e) (map (span_of (length t)) (matching t h (scanned t h))) <->
  e = s + length t /\ occurs_at t h s.
Proof.
  rewrite in_map_iff. split.
  - intros [i [[= <- <-] Hi]]. split; [done|].
    by apply elem_of_matching, list_elem_of_In.
  - intros [-> Hs]. exists s. split; [done|].
    by apply list_elem_of_In, elem_of_matching.
Qed.

(** X1: slicing the haystack at any returned span gives back the target,
    whatever the target (the empty one included); every span has the
    target's length and ends within the haystack. *)
Theorem find_sublist_indices_round_trip (sublist mainlist : list Z) :
  exists indices,
    find_sublist_indices sublist mainlist = Return indices /\
    forall start stop, In (start, stop) indices ->
      slice mainlist start stop = sublist /\
      stop = start + length sublist /\
      stop <= length mainlist.
Proof.
  eexists. split; [apply find_list_eq|].
  intros s e [-> Hocc]%in_find_list.
  apply occurs_at_slice in Hocc as [Hlen E]. done.
Qed.

(** X2: no span is reported twice, and there are at most
    [len(mainlist) - len(sublist) + 1] of them. *)
Theorem find_sublist_indices_count (sublist mainlist : list Z) :
  exists indices,
    find_sublist_indices sublist mainlist = Return indices /\
    NoDup indices /\
    length indices <= length mainlist + 1 - length sublist.
Proof.
  eexists. split; [apply find_list_eq|]. split.
  - apply NoDup_fmap_2; [by intros i j [= ?]|].
    apply list.NoDup_filter, NoDup_seq.
  - rewrite length_map. etrans; [apply list.length_filter|].
    unfold scanned, range0. rewrite length_seq. lia.
Qed.

Lemma occurs_at_app_l (t h1 h2 : list Z) (i : nat) :
  i + length t <= length h1 ->
  occurs_at t (h1 ++ h2) i <-> occurs_at t h1 i.
Proof.
  intros Hi. unfold occurs_at. rewrite length_app.
  split; intros [Hlen Hel]; (split; [lia|]); intros k Hk.
  - rewrite <- Hel by done. symmetry. apply lookup_app_l. lia.
  - rewrite <- Hel by done. apply lookup_app_l. lia.
Qed.

Lemma occurs_at_app_r (t h1 h2 : list Z) (i : nat) :
  occurs_at t (h1 ++ h2) (i + length h1) <-> occurs_at t h2 i.
Proof.
  unfold occurs_at. rewrite length_app.
  split; intros [Hlen Hel]; (split; [lia|]); intros k Hk.
  - rewrite <- Hel by done. rewrite lookup_app_r by lia. f_equal. lia.
  - rewrite <- Hel by done. rewrite lookup_app_r by lia. f_equal. lia.
Qed.

(** X3: searching a concatenation. The spans found in [h1 ++ h2] that end
    within [h1] are the spans found in [h1], and those that start at or
    after the end of [h1] are the spans found in [h2], shifted by
    [len(h1)]: text added before or after a haystack neither removes nor
    moves its occurrences. *)
Theorem find_sublist_indices_app (sublist h1 h2 : list Z) :
  exists l1 l2 l,
    find_sublist_indices sublist h1 = Return l1 /\
    find_sublist_indices sublist h2 = Return l2 /\
    find_sublist_indices sublist (h1 ++ h2) = Return l /\
    (forall start stop, stop <= length h1 ->
       (In (start, stop) l <-> In (start, stop) l1)) /\
    (forall start stop,
       In (start + length h1, stop + length h1) l <-> In (start, stop) l2).
Proof.
  do 3 eexists. do 3 (split; [apply find_list_eq|]). split.
  - intros s e He. rewrite !in_find_list. split; intros [-> Hocc].
    + split; [done|]. by apply occurs_at_app_l in Hocc.
    + split; [done|]. by apply occurs_at_app_l.
  - intros s e. rewrite !in_find_list, occurs_at_app_r.
    split; intros [E Hocc]; (split; [lia|done]).
Qed.

Lemma slice_all {A : Type} (l : list A) : slice l 0 (0 + length l) = l.
Proof. rewrite slice_at. simpl. by rewrite take_ge. Qed.

(** X4: a list searched in itself is found once, at position 0. *)
Theorem find_sublist_indices_self (sublist : list Z) :
  find_sublist_indices sublist sublist = Return [(0, length sublist)].
Proof.
  rewrite find_list_eq. unfold scanned, range0.
  replace (Z.to_nat (Z.of_nat (length sublist) - Z.of_nat (length sublist) + 1))
    with 1 by lia.
  unfold matching. simpl.
  rewrite filter_cons_True by apply slice_all. done.
Qed.

Lemma slice_one (h : list Z) (i : nat) (x : Z) :
  slice h i (i + 1) = [x] <-> h !! i = Some x.
Proof.
  rewrite slice_at. destruct (h !! i) as [y|] eqn:E.
  - rewrite (drop_S _ _ _ E). simpl. rewrite take_0.
    split; by intros [= ->].
  - rewrite drop_ge by by apply lookup_ge_None. done.
Qed.

Lemma length_filter_positions (h : list Z) (x : Z) :
  length (filter (fun i => h !! i = Some x) (seq 0 (length h))) =
  length (filter (fun y => y = x) h).
Proof.
  induction h as [|y h IH] using rev_ind; [done|].
  rewrite length_app. change (length [y]) with 1.
  rewrite Nat.add_1_r, seq_S, !list.filter_app, !length_app. simpl. f_equal.
  - rewrite <- IH. f_equal. apply filter_ext_elem. intros i Hi.
    apply elem_of_seq in Hi. rewrite lookup_app_l by lia. done.
  - rewrite !filter_cons, !filter_nil.
    rewrite list_lookup_middle by done.
    destruct (decide (y = x)) as [->|Hne].
    + by rewrite decide_True.
    + rewrite decide_False; [done|]. by intros [= ?].
Qed.

(** X5: for a target of one element [x], the spans are the positions that
    hold [x], and there are as many as [x] has occurrences in the haystack:
    a one-token word contributes one occurrence per appearance of its id. *)
Theorem find_sublist_indices_one_element (x : Z) (mainlist : list Z) :
  exists indices,
    find_sublist_indices [x] mainlist = Return indices /\
    (forall start stop, In (start, stop) indices <->
       stop = start + 1 /\ mainlist !! start = Some x) /\
    length indices = length (filter (fun y => y = x) mainlist).
Proof.
  eexists. split; [apply find_list_eq|]. split.
  - intros s e. rewrite in_find_list, occurs_at_slice. simpl.
    rewrite slice_one. split.
    + intros [-> [_ E]]. done.
    + intros [-> E]. split; [done|]. split; [|done].
      apply lookup_lt_Some in E. lia.
  - rewrite length_map, <- length_filter_positions.
    unfold matching, scanned, range0. change (length [x]) with 1.
    replace (Z.to_nat (Z.of_nat (length mainlist) - Z.of_nat 1 + 1))
      with (length mainlist) by lia.
    f_equal. apply filter_ext_elem. intros i _. apply slice_one.
Qed.

(** ** On tensors *)

Lemma find_tensor_ambiguous (t h : tensor1) :
  length (tdata t) <> 1 ->
  length (tdata t) <= length (tdata h) ->
  find_sublist_indices t h = Raise RuntimeError_bool_ambiguous.
Proof.
  intros Ht Hle. unfold find_sublist_indices, range0. simpl.
  replace (Z.to_nat (Z.of_nat (length (tdata h)) -
                     Z.of_nat (length (tdata t)) + 1))
    with (S (length (tdata h) - length (tdata t))) by lia.
  simpl. unfold find_body at 1.
  change (py_slice h 0 (0 + length (tdata t)))
    with (Tensor1 (slice (tdata h) 0 (0 + length (tdata t)))).
  destruct t as [x]. simpl in Ht, Hle |- *.
  pose proof (tensor_truth_ambiguous (slice (tdata h) 0 (length x)) x) as E.
  simpl in E. rewrite E; [done| |done].
  by apply (length_slice_in_range (tdata h) 0).
Qed.

(** X6: what the search does when it is handed tensors, as the aggregation
    cell does. With a one-element target it returns what the search on the
    lists of the same elements returns. With any other target it raises as
    soon as the haystack is at least as long as the target (the comparison
    yields a tensor of booleans that [if] cannot test), and returns no span
    when the haystack is shorter. *)
Theorem find_sublist_indices_on_tensors (sublist mainlist : tensor1) :
  find_sublist_indices sublist mainlist =
  if decide (length (tdata sublist) = 1) then
    find_sublist_indices (tdata sublist) (tdata mainlist)
  else if decide (length (tdata sublist) <= length (tdata mainlist)) then
    Raise RuntimeError_bool_ambiguous
  else
    Return [].
Proof.
  destruct (decide (length (tdata sublist) = 1)) as [H1|H1].
  - by apply find_tensor_single.
  - destruct (decide (length (tdata sublist) <= length (tdata mainlist)))
      as [Hle|Hgt].
    + by apply find_tensor_ambiguous.
    + unfold find_sublist_indices, range0. simpl.
      replace (Z.to_nat (Z.of_nat (length (tdata mainlist)) -
                         Z.of_nat (length (tdata sublist)) + 1))
        with 0 by lia.
      done.
Qed.

(** * Further properties of the aggregation *)

Lemma zip_map_self {A B : Type} (f : A -> B) (l : list A) :
  zip l (map f l) = map (fun a => (a, f a)) l.
Proof. induction l as [|a l IH]; [done|]. simpl. by rewrite IH. Qed.

Lemma elem_of_occurrence_starts (t ids : list Z) (i : nat) :
  i ∈ occurrence_starts t ids <-> occurs_at t ids i.
Proof.
  unfold occurrence_starts. rewrite list_elem_of_filter, elem_of_seq.
  split; [tauto|]. intros Hocc. split; [done|].
  destruct Hocc as [Hlen _]. lia.
Qed.

Lemma occurrence_starts_none (t ids : list Z) :
  (forall i, ~ occurs_at t ids i) -> occurrence_starts t ids = [].
Proof. intros Hno. apply filter_none. intros i _. apply Hno. Qed.

Lemma NoDup_occurrence_starts (t ids : list Z) :
  NoDup (occurrence_starts t ids).
Proof. apply list.NoDup_filter, NoDup_seq. Qed.

Lemma occurrence_starts_only (t ids : list Z) (i : nat) :
  (forall j, occurs_at t ids j <-> j = i) -> occurrence_starts t ids = [i].
Proof.
  intros Hi.
  assert (forall j, j ∈ occurrence_starts t ids <-> j = i) as Hin.
  { intros j. by rewrite elem_of_occurrence_starts. }
  pose proof (NoDup_occurrence_starts t ids) as Hnd.
  destruct (occurrence_starts t ids) as [|a [|b l]].
  - exfalso. by apply (elem_of_nil i), Hin.
  - f_equal. apply Hin. by left.
  - exfalso. assert (a = i) as -> by (apply Hin; by left).
    assert (b = i) as -> by (apply Hin; right; by left).
    apply list.NoDup_cons in Hnd as [Hnd _]. apply Hnd. by left.
Qed.

Section PipelineFacts.
Variable hf_represent : tensor1 -> list vec.

Lemma occurrence_slices_pipeline (x : list Z) (corpus_ids : list tensor1) :
  occurrence_slices x (zip corpus_ids (corpus_reps_of hf_represent corpus_ids)) =
  token_rows hf_represent x corpus_ids.
Proof.
  unfold corpus_reps_of. rewrite zip_map_self.
  unfold occurrence_slices, token_rows.
  induction corpus_ids as [|ids c IH]; [done|]. simpl. by rewrite IH.
Qed.

Lemma token_rows_app (x : list Z) (c1 c2 : list tensor1) :
  token_rows hf_represent x (c1 ++ c2) =
  token_rows hf_represent x c1 ++ token_rows hf_represent x c2.
Proof. unfold token_rows. apply flat_map_app. Qed.

Lemma token_rows_none (x : list Z) (c : list tensor1) :
  (forall ids, In ids c -> forall i, ~ occurs_at x (tdata ids) i) ->
  token_rows hf_represent x c = [].
Proof.
  induction c as [|ids c IH]; intros Hno; [done|].
  unfold token_rows. simpl.
  rewrite occurrence_starts_none by (apply Hno; by left). simpl.
  apply IH. intros ids' Hin. apply Hno. by right.
Qed.

Lemma token_rows_one_row (x : list Z) (c : list tensor1) :
  length x = 1 ->
  (forall ids, In ids c -> length (hf_represent ids) = length (tdata ids)) ->
  Forall (fun rows : list vec => length rows = 1) (token_rows hf_represent x c).
Proof.
  intros Hx. induction c as [|ids c IH]; intros Hal; [constructor|].
  unfold token_rows. simpl. apply Forall_app. split.
  - apply list.Forall_forall. intros rows Hrows.
    apply list_elem_of_fmap in Hrows as [i [-> Hi]].
    apply elem_of_occurrence_starts in Hi as [Hlen _].
    rewrite Hx. apply length_slice_in_range.
    rewrite (Hal ids) by by left. lia.
  - apply IH. intros ids' Hin. apply Hal. by right.
Qed.

Lemma aggregated_eq (vsm_mean_pooling : list vec -> result vec)
    (sailing : tensor1) (corpus_ids : list tensor1) :
  length (tdata sailing) = 1 ->
  aggregated hf_represent vsm_mean_pooling sailing corpus_ids =
  (let! occurrence_vectors :=
     map_result vsm_mean_pooling
       (token_rows hf_represent (tdata sailing) corpus_ids) in
   let! stacked := Torch.cat occurrence_vectors in
   Return (Torch.squeeze_0 (Torch.mean_axis0 stacked))).
Proof.
  intros Hs. unfold aggregated.
  by rewrite sailing_rep_single_token, occurrence_slices_pipeline.
Qed.

End PipelineFacts.

Lemma map_result_ext {A B : Type} (P : A -> Prop) (f g : A -> result B)
    (l : list A) :
  Forall P l -> (forall a, P a -> f a = g a) ->
  map_result f l = map_result g l.
Proof.
  intros Hl Hfg. induction Hl as [|a l Ha Hl IH]; [done|].
  simpl. by rewrite (Hfg a), IH.
Qed.

Lemma map_result_returns {A B : Type} (P : A -> Prop) (Q : B -> Prop)
    (f : A -> result B) (l : list A) :
  Forall P l -> (forall a, P a -> exists b, f a = Return b /\ Q b) ->
  exists bs, map_result f l = Return bs /\ Forall Q bs /\ length bs = length l.
Proof.
  intros Hl Hf. induction Hl as [|a l Ha Hl [bs [E [HQ Hlen]]]].
  - exists []. by repeat split.
  - destruct (Hf a Ha) as [b [Eb Hb]]. exists (b :: bs).
    simpl. rewrite Eb, E. simpl. repeat split; [by constructor|by f_equal].
Qed.

Lemma length_foldl_vadd (D : nat) (x : vec) (rest : list vec) :
  length x = D -> Forall (fun v : vec => length v = D) rest ->
  length (foldl vadd x rest) = D.
Proof.
  intros Hx Hrest. revert x Hx.
  induction Hrest as [|v rest Hv Hrest IH]; intros x Hx; [done|].
  simpl. apply IH. unfold vadd. rewrite length_zip_with. lia.
Qed.

Lemma cat_same_size (D : nat) (ts : list vec) :
  ts <> [] -> Forall (fun v : vec => length v = D) ts ->
  Torch.cat ts = Return ts.
Proof.
  intros Hne Hts. destruct ts as [|t ts]; [done|].
  apply list.Forall_cons in Hts as [Ht Hts]. simpl.
  rewrite (proj2 (forallb_forall _ _)); [done|].
  intros u Hu. rewrite list.Forall_forall in Hts.
  apply Nat.eqb_eq. rewrite Ht. by apply Hts, list_elem_of_In.
Qed.

Lemma length_mean_axis0 (D : nat) (ts : list vec) :
  ts <> [] -> Forall (fun v : vec => length v = D) ts ->
  length (Torch.mean_axis0 ts) = D.
Proof.
  intros Hne Hts. destruct ts as [|t ts]; [done|].
  apply list.Forall_cons in Hts as [Ht Hts].
  unfold Torch.mean_axis0, vmean. rewrite length_map.
  by apply length_foldl_vadd.
Qed.

Lemma mean_axis0_one_row (v : vec) : Torch.mean_axis0 [v] = v.
Proof.
  unfold Torch.mean_axis0, vmean. simpl.
  induction v as [|x v IH]; [done|]. simpl. by rewrite Qcdiv_1_r, IH.
Qed.

Lemma occurs_at_one (x : Z) (h : list Z) (i : nat) :
  occurs_at [x] h i <-> h !! i = Some x.
Proof.
  rewrite occurs_at_slice. simpl. rewrite slice_one. split; [tauto|].
  intros E. split; [|done]. apply lookup_lt_Some in E. lia.
Qed.

Lemma token_rows_dim (hf_represent : tensor1 -> list vec) (D : nat)
    (x : list Z) (c : list tensor1) :
  (forall ids, In ids c ->
     Forall (fun r : vec => length r = D) (hf_represent ids)) ->
  Forall (Forall (fun r : vec => length r = D)) (token_rows hf_represent x c).
Proof.
  induction c as [|ids c IH]; intros Hdim; [constructor|].
  unfold token_rows. simpl. apply Forall_app. split.
  - apply list.Forall_forall. intros rows Hrows.
    apply list_elem_of_fmap in Hrows as [i [-> Hi]].
    unfold slice. apply Forall_take, Forall_drop, Hdim. by left.
  - apply IH. intros ids' Hin. apply Hdim. by right.
Qed.

Section AggregatedPipeline.
Variable hf_represent : tensor1 -> list vec.

(** X7: for a word of one token, the cells compute this: every text of the
    corpus is paired with its own representation; the row of each
    occurrence is pooled, text by text in corpus order and within a text
    from left to right; the pooled vectors are stacked and averaged. An
    exception of the pooling function or of [torch.cat] ends the
    computation. *)
Theorem aggregated_one_token (vsm_mean_pooling : list vec -> result vec)
    (sailing : tensor1) (corpus_ids : list tensor1) :
  length (tdata sailing) = 1 ->
  aggregated hf_represent vsm_mean_pooling sailing corpus_ids =
  (let! occurrence_vectors :=
     map_result vsm_mean_pooling
       (flat_map (fun ids : tensor1 =>
                    map (fun i => slice (hf_represent ids) i (i + 1))
                        (occurrence_starts (tdata sailing) (tdata ids)))
                 corpus_ids) in
   let! stacked := Torch.cat occurrence_vectors in
   Return (Torch.squeeze_0 (Torch.mean_axis0 stacked))).
Proof.
  intros Hs. rewrite aggregated_eq by done. unfold token_rows.
  by rewrite Hs.
Qed.

(** X8: for a word that does not have exactly one token and that occurs in
    some text of the corpus, the cells raise the error of testing a tensor
    of several booleans, and no vector is computed. *)
Theorem aggregated_several_tokens (vsm_mean_pooling : list vec -> result vec)
    (sailing : tensor1) (corpus_ids : list tensor1) :
  length (tdata sailing) <> 1 ->
  (exists ids i, In ids corpus_ids /\
     occurs_at (tdata sailing) (tdata ids) i) ->
  aggregated hf_represent vsm_mean_pooling sailing corpus_ids =
  Raise RuntimeError_bool_ambiguous.
Proof.
  intros Hs [ids [i [Hin Hocc]]]. unfold aggregated.
  apply sailing_rep_multi_token; [done|].
  exists (ids, hf_represent ids). split; [|by exists i].
  unfold corpus_reps_of. rewrite zip_map_self.
  apply list_elem_of_fmap. exists ids. split; [done|].
  by apply list_elem_of_In.
Qed.

(** X9: for a word of one token, a text in which the word does not occur
    contributes nothing: the result is the same with the text left out of
    the corpus. *)
Theorem aggregated_text_without_occurrence
    (vsm_mean_pooling : list vec -> result vec) (sailing : tensor1)
    (before : list tensor1) (ids : tensor1) (after : list tensor1) :
  length (tdata sailing) = 1 ->
  (forall i, ~ occurs_at (tdata sailing) (tdata ids) i) ->
  aggregated hf_represent vsm_mean_pooling sailing (before ++ ids :: after) =
  aggregated hf_represent vsm_mean_pooling sailing (before ++ after).
Proof.
  intros Hs Hno. rewrite !aggregated_eq by done.
  rewrite !token_rows_app.
  change (ids :: after) with ([ids] ++ after).
  rewrite token_rows_app, (token_rows_none _ _ [ids]); [done|].
  by intros ids' [<-|[]].
Qed.

(** X10: for a word of one token, when the representer returns one row per
    token, the pooling function is only ever applied to one-row slices:
    two pooling functions that agree on one-row inputs give the same
    result. In particular no empty slice is pooled. *)
Theorem aggregated_pools_single_rows
    (pooling1 pooling2 : list vec -> result vec) (sailing : tensor1)
    (corpus_ids : list tensor1) :
  length (tdata sailing) = 1 ->
  (forall ids, In ids corpus_ids ->
     length (hf_represent ids) = length (tdata ids)) ->
  (forall r, pooling1 [r] = pooling2 [r]) ->
  aggregated hf_represent pooling1 sailing corpus_ids =
  aggregated hf_represent pooling2 sailing corpus_ids.
Proof.
  intros Hs Hal H12. rewrite !aggregated_eq by done.
  rewrite (map_result_ext (fun rows : list vec => length rows = 1)
             pooling1 pooling2); [done| |].
  - by apply token_rows_one_row.
  - intros [|r [|r' rows]] Hrows; try done.
Qed.

(** X11: for a word of one token that occurs somewhere in the corpus, when
    the representer returns one row of dimension [D] per token and the
    pooling function maps a row of dimension [D] to a vector of dimension
    [D], the cells succeed and the result is a vector of dimension [D]
    (the notebook shows [torch.Size([768])]). *)
Theorem aggregated_returns_vector
    (vsm_mean_pooling : list vec -> result vec) (sailing : tensor1)
    (corpus_ids : list tensor1) (D : nat) :
  length (tdata sailing) = 1 ->
  (forall ids, In ids corpus_ids ->
     length (hf_represent ids) = length (tdata ids) /\
     Forall (fun r : vec => length r = D) (hf_represent ids)) ->
  (forall r, length r = D ->
     exists v, vsm_mean_pooling [r] = Return v /\ length v = D) ->
  (exists ids i, In ids corpus_ids /\
     occurs_at (tdata sailing) (tdata ids) i) ->
  D <> 1 ->
  exists v,
    aggregated hf_represent vsm_mean_pooling sailing corpus_ids =
      Return (Torch.Vector v) /\
    length v = D.
Proof.
  intros Hs Hrep Hpool [ids [i [Hin Hocc]]] HD.
  rewrite aggregated_eq by done.
  set (rows := token_rows hf_represent (tdata sailing) corpus_ids).
  assert (Forall (fun sl : list vec =>
                    exists r, sl = [r] /\ length r = D) rows) as Hrows.
  { pose proof (token_rows_one_row hf_represent (tdata sailing) corpus_ids Hs
                  (fun ids' H' => proj1 (Hrep ids' H'))) as H1.
    pose proof (token_rows_dim hf_represent D (tdata sailing) corpus_ids
                  (fun ids' H' => proj2 (Hrep ids' H'))) as H2.
    fold rows in H1, H2. rewrite list.Forall_forall in H1, H2.
    apply list.Forall_forall. intros [|r [|r' sl]] Hsl;
      try (by specialize (H1 _ Hsl)).
    exists r. split; [done|].
    specialize (H2 _ Hsl). by apply list.Forall_cons in H2 as [H2 _]. }
  assert (rows <> []) as Hne.
  { intros E. apply (elem_of_nil (slice (hf_represent ids) i
                                    (i + length (tdata sailing)))).
    rewrite <- E. unfold rows, token_rows.
    apply list_elem_of_In, in_flat_map. exists ids. split; [done|].
    apply in_map_iff. exists i. split; [done|].
    by apply list_elem_of_In, elem_of_occurrence_starts. }
  destruct (map_result_returns _ (fun v : vec => length v = D)
              vsm_mean_pooling rows Hrows) as [occs [E [Hoccs Hlen]]].
  { intros sl [r [-> Hr]]. by apply Hpool. }
  assert (occs <> []) as Hne'.
  { intros ->. destruct rows; [done|discriminate Hlen]. }
  rewrite E. cbn [Py.bind]. rewrite (cat_same_size D) by done.
  cbn [Py.bind].
  pose proof (length_mean_axis0 D occs Hne' Hoccs) as HlenD.
  exists (Torch.mean_axis0 occs). split; [|done]. f_equal.
  destruct (Torch.mean_axis0 occs) as [|q [|q' v]]; simpl in *; done.
Qed.

(** X12: for a word of one token with a single occurrence in the whole
    corpus, the result is the pooled row of that occurrence: averaging one
    vector leaves it as it is. *)
Theorem aggregated_single_occurrence
    (vsm_mean_pooling : list vec -> result vec) (sailing : tensor1)
    (before : list tensor1) (ids : tensor1) (after : list tensor1)
    (i : nat) (v : vec) :
  length (tdata sailing) = 1 ->
  (forall ids', In ids' (before ++ after) ->
     forall j, ~ occurs_at (tdata sailing) (tdata ids') j) ->
  (forall j, occurs_at (tdata sailing) (tdata ids) j <-> j = i) ->
  vsm_mean_pooling (slice (hf_represent ids) i (i + 1)) = Return v ->
  aggregated hf_represent vsm_mean_pooling sailing (before ++ ids :: after) =
  Return (Torch.squeeze_0 v).
Proof.
  intros Hs Hno Hi Hv. rewrite aggregated_eq by done.
  change (ids :: after) with ([ids] ++ after).
  rewrite !token_rows_app.
  rewrite (token_rows_none _ _ before), (token_rows_none _ _ after).
  - unfold token_rows. simpl.
    rewrite (occurrence_starts_only _ _ i Hi), Hs. simpl.
    rewrite Hv. simpl.
    change (vmean 1 v []) with (Torch.mean_axis0 [v]).
    by rewrite mean_axis0_one_row.
  - intros ids' Hin. apply Hno, in_or_app. by right.
  - intros ids' Hin. apply Hno, in_or_app. by left.
Qed.

End AggregatedPipeline.

(** ** The further properties at concrete inputs *)

Lemma two_dim_represent_rows (ids : tensor1) :
  length (two_dim_represent ids) = length (tdata ids) /\
  Forall (fun r : vec => length r = 2) (two_dim_represent ids).
Proof.
  unfold two_dim_represent. split; [apply length_map|].
  apply list.Forall_forall. intros r Hr.
  by apply list_elem_of_fmap in Hr as [z [-> _]].
Qed.

Lemma aggregated_one_token_witness :
  length (tdata (Tensor1 [5]%Z)) = 1 /\
  aggregated two_dim_represent Pooling.mean_pooling (Tensor1 [5]%Z)
    [Tensor1 [1; 5]%Z; Tensor1 [5; 2; 5]%Z] =
  (let! occurrence_vectors :=
     map_result Pooling.mean_pooling
       (flat_map (fun ids : tensor1 =>
                    map (fun i => slice (two_dim_represent ids) i (i + 1))
                        (occurrence_starts (tdata (Tensor1 [5]%Z)) (tdata ids)))
                 [Tensor1 [1; 5]%Z; Tensor1 [5; 2; 5]%Z]) in
   let! stacked := Torch.cat occurrence_vectors in
   Return (Torch.squeeze_0 (Torch.mean_axis0 stacked))).
Proof.
  split; [reflexivity|].
  apply (aggregated_one_token two_dim_represent Pooling.mean_pooling
           (Tensor1 [5]%Z) [Tensor1 [1; 5]%Z; Tensor1 [5; 2; 5]%Z]).
  reflexivity.
Defined.

Lemma aggregated_several_tokens_witness :
  length (tdata (Tensor1 [1; 2]%Z)) <> 1 /\
  (exists ids i, In ids [Tensor1 [0; 1; 2]%Z] /\
     occurs_at (tdata (Tensor1 [1; 2]%Z)) (tdata ids) i) /\
  aggregated two_dim_represent Pooling.mean_pooling (Tensor1 [1; 2]%Z)
    [Tensor1 [0; 1; 2]%Z] = Raise RuntimeError_bool_ambiguous.
Proof.
  assert (length (tdata (Tensor1 [1; 2]%Z)) <> 1) as Hs by (simpl; lia).
  assert (exists ids i, In ids [Tensor1 [0; 1; 2]%Z] /\
            occurs_at (tdata (Tensor1 [1; 2]%Z)) (tdata ids) i) as Hocc.
  { exists (Tensor1 [0; 1; 2]%Z), 1. split; [by left|].
    apply occurs_at_slice. split; [simpl; lia|reflexivity]. }
  split; [exact Hs|]. split; [exact Hocc|].
  exact (aggregated_several_tokens two_dim_represent Pooling.mean_pooling
           (Tensor1 [1; 2]%Z) [Tensor1 [0; 1; 2]%Z] Hs Hocc).
Defined.

Lemma aggregated_text_without_occurrence_witness :
  length (tdata (Tensor1 [5]%Z)) = 1 /\
  (forall i, ~ occurs_at (tdata (Tensor1 [5]%Z)) (tdata (Tensor1 [1; 2]%Z)) i) /\
  aggregated two_dim_represent Pooling.mean_pooling (Tensor1 [5]%Z)
    ([Tensor1 [1; 5]%Z] ++ Tensor1 [1; 2]%Z :: [Tensor1 [5]%Z]) =
  aggregated two_dim_represent Pooling.mean_pooling (Tensor1 [5]%Z)
    ([Tensor1 [1; 5]%Z] ++ [Tensor1 [5]%Z]).
Proof.
  assert (forall i, ~ occurs_at (tdata (Tensor1 [5]%Z))
                      (tdata (Tensor1 [1; 2]%Z)) i) as Hno.
  { intros i Hocc. apply occurs_at_one in Hocc.
    destruct i as [|[|i]]; discriminate Hocc. }
  split; [reflexivity|]. split; [exact Hno|].
  exact (aggregated_text_without_occurrence two_dim_represent
           Pooling.mean_pooling (Tensor1 [5]%Z) [Tensor1 [1; 5]%Z]
           (Tensor1 [1; 2]%Z) [Tensor1 [5]%Z] eq_refl Hno).
Defined.

Lemma aggregated_pools_single_rows_witness :
  length (tdata (Tensor1 [5]%Z)) = 1 /\
  (forall ids, In ids [Tensor1 [1; 5]%Z; Tensor1 [5; 2; 5]%Z] ->
     length (two_dim_represent ids) = length (tdata ids)) /\
  (forall r, Pooling.max_pooling [r] = Pooling.last_pooling [r]) /\
  aggregated two_dim_represent Pooling.max_pooling (Tensor1 [5]%Z)
    [Tensor1 [1; 5]%Z; Tensor1 [5; 2; 5]%Z] =
  aggregated two_dim_represent Pooling.last_pooling (Tensor1 [5]%Z)
    [Tensor1 [1; 5]%Z; Tensor1 [5; 2; 5]%Z].
Proof.
  assert (forall ids, In ids [Tensor1 [1; 5]%Z; Tensor1 [5; 2; 5]%Z] ->
            length (two_dim_represent ids) = length (tdata ids)) as Hal.
  { intros ids _. apply two_dim_represent_rows. }
  assert (forall r, Pooling.max_pooling [r] = Pooling.last_pooling [r]) as H12.
  { intros r. reflexivity. }
  split; [reflexivity|]. split; [exact Hal|]. split; [exact H12|].
  exact (aggregated_pools_single_rows two_dim_represent Pooling.max_pooling
           Pooling.last_pooling (Tensor1 [5]%Z)
           [Tensor1 [1; 5]%Z; Tensor1 [5; 2; 5]%Z] eq_refl Hal H12).
Defined.

Lemma aggregated_returns_vector_witness :
  length (tdata (Tensor1 [5]%Z)) = 1 /\
  (forall ids, In ids [Tensor1 [1; 5]%Z; Tensor1 [5; 2; 5]%Z] ->
     length (two_dim_represent ids) = length (tdata ids) /\
     Forall (fun r : vec => length r = 2) (two_dim_represent ids)) /\
  (forall r, length r = 2 ->
     exists v, Pooling.max_pooling [r] = Return v /\ length v = 2) /\
  (exists ids i, In ids [Tensor1 [1; 5]%Z; Tensor1 [5; 2; 5]%Z] /\
     occurs_at (tdata (Tensor1 [5]%Z)) (tdata ids) i) /\
  2 <> 1 /\
  exists v,
    aggregated two_dim_represent Pooling.max_pooling (Tensor1 [5]%Z)
      [Tensor1 [1; 5]%Z; Tensor1 [5; 2; 5]%Z] = Return (Torch.Vector v) /\
    length v = 2.
Proof.
  assert (forall ids, In ids [Tensor1 [1; 5]%Z; Tensor1 [5; 2; 5]%Z] ->
            length (two_dim_represent ids) = length (tdata ids) /\
            Forall (fun r : vec => length r = 2) (two_dim_represent ids))
    as Hrep.
  { intros ids _. apply two_dim_represent_rows. }
  assert (forall r, length r = 2 ->
            exists v, Pooling.max_pooling [r] = Return v /\ length v = 2)
    as Hpool.
  { intros r Hr. exists r. split; [reflexivity|exact Hr]. }
  assert (exists ids i, In ids [Tensor1 [1; 5]%Z; Tensor1 [5; 2; 5]%Z] /\
            occurs_at (tdata (Tensor1 [5]%Z)) (tdata ids) i) as Hocc.
  { exists (Tensor1 [1; 5]%Z), 1. split; [by left|].
    by apply occurs_at_one. }
  assert (2 <> 1) as HD by lia.
  split; [reflexivity|]. split; [exact Hrep|]. split; [exact Hpool|].
  split; [exact Hocc|]. split; [exact HD|].
  exact (aggregated_returns_vector two_dim_represent Pooling.max_pooling
           (Tensor1 [5]%Z) [Tensor1 [1; 5]%Z; Tensor1 [5; 2; 5]%Z] 2
           eq_refl Hrep Hpool Hocc HD).
Defined.

Lemma aggregated_single_occurrence_witness :
  length (tdata (Tensor1 [5]%Z)) = 1 /\
  (forall ids', In ids' ([Tensor1 [1; 2]%Z] ++ []) ->
     forall j, ~ occurs_at (tdata (Tensor1 [5]%Z)) (tdata ids') j) /\
  (forall j, occurs_at (tdata (Tensor1 [5]%Z)) (tdata (Tensor1 [3; 5]%Z)) j <->
     j = 1) /\
  Pooling.last_pooling (slice (two_dim_represent (Tensor1 [3; 5]%Z)) 1 (1 + 1)) =
    Return [Qc_of_Z 5; Qc_of_Z 6] /\
  aggregated two_dim_represent Pooling.last_pooling (Tensor1 [5]%Z)
    ([Tensor1 [1; 2]%Z] ++ Tensor1 [3; 5]%Z :: []) =
  Return (Torch.squeeze_0 [Qc_of_Z 5; Qc_of_Z 6]).
Proof.
  assert (forall ids', In ids' ([Tensor1 [1; 2]%Z] ++ []) ->
            forall j, ~ occurs_at (tdata (Tensor1 [5]%Z)) (tdata ids') j)
    as Hno.
  { intros ids' [<-|[]] j Hocc. apply occurs_at_one in Hocc.
    destruct j as [|[|j]]; discriminate Hocc. }
  assert (forall j, occurs_at (tdata (Tensor1 [5]%Z))
                      (tdata (Tensor1 [3; 5]%Z)) j <-> j = 1) as Hi.
  { intros j. simpl. rewrite occurs_at_one. split.
    - intros E. destruct j as [|[|j]]; [discriminate E|done|discriminate E].
    - by intros ->. }
  assert (Pooling.last_pooling
            (slice (two_dim_represent (Tensor1 [3; 5]%Z)) 1 (1 + 1)) =
          Return [Qc_of_Z 5; Qc_of_Z 6]) as Hv by reflexivity.
  split; [reflexivity|]. split; [exact Hno|]. split; [exact Hi|].
  split; [exact Hv|].
  exact (aggregated_single_occurrence two_dim_represent Pooling.last_pooling
           (Tensor1 [5]%Z) [Tensor1 [1; 2]%Z] (Tensor1 [3; 5]%Z) [] 1
           [Qc_of_Z 5; Qc_of_Z 6] eq_refl Hno Hi Hv).
Defined.

(** * The two readings of [vsm.mean_pooling] on one vector or more *)

Lemma nth_vadd (d : nat) (u v : vec) :
  d < length u -> d < length v ->
  nth d (vadd u v) 0%Qc = (nth d u 0 + nth d v 0)%Qc.
Proof.
  revert d v. induction u as [|a u IH]; intros d [|b v] Hu Hv;
    simpl in *; try lia.
  destruct d as [|d]; [done|]. apply IH; lia.
Qed.

Lemma nth_foldl_vadd (D d : nat) (x : vec) (rest : list vec) :
  d < D -> length x = D -> Forall (fun r : vec => length r = D) rest ->
  nth d (foldl vadd x rest) 0%Qc =
  foldl Qcplus (nth d x 0%Qc) (map (fun r : vec => nth d r 0%Qc) rest).
Proof.
  intros Hd Hx Hrest. revert x Hx.
  induction Hrest as [|r rest Hr Hrest IH]; intros x Hx; [done|].
  simpl. rewrite IH.
  - by rewrite nth_vadd by lia.
  - unfold vadd. rewrite length_zip_with. lia.
Qed.

(** For one vector or more, all of dimension [D], the function the notebook
    describes returns the numbers that the function modelled from the
    specification returns, and no NaN. *)
Lemma described_mean_pooling_agrees (D : nat) (hidden_states : list vec)
    (v : vec) :
  Forall (fun r : vec => length r = D) hidden_states ->
  Pooling.mean_pooling hidden_states = Return v ->
  Described.mean_pooling (Described.Hidden D hidden_states) =
  Return (map Described.Finite v).
Proof.
  intros Hdim. destruct hidden_states as [|x rest]; [done|].
  intros [= <-]. apply list.Forall_cons in Hdim as [Hx Hrest].
  unfold Described.mean_pooling, Described.torch_mean_axis1. f_equal.
  cbn [Described.width Described.rows Described.column].
  unfold vmean. rewrite map_map.
  pose proof (length_foldl_vadd D x rest Hx Hrest) as Hlen.
  apply (nth_ext _ _ Described.NaN Described.NaN).
  - by rewrite !length_map, length_seq.
  - intros d Hd. rewrite length_map, length_seq in Hd.
    rewrite (nth_indep _ _ (Described.mean_entries
                              (Described.column 0 (Described.Hidden D (x :: rest)))))
      by by rewrite length_map, length_seq.
    rewrite (map_nth (fun d => Described.mean_entries
                        (Described.column d (Described.Hidden D (x :: rest))))).
    rewrite seq_nth by done.
    rewrite (nth_indep _ _ (Described.Finite
                              (0 / Qc_of_nat (length (x :: rest)))%Qc))
      by by rewrite length_map, Hlen.
    rewrite (map_nth (fun s : Qc => Described.Finite
                        (s / Qc_of_nat (length (x :: rest)))%Qc)).
    rewrite (nth_foldl_vadd D) by done.
    unfold Described.column. simpl. by rewrite Qcplus_0_l, length_map.
Qed.
